(** * The item service of [web-app/app.py]

    A shallow embedding of the FastAPI handlers of [web-app/app.py] and of
    the process-wide dictionary [items] they share, followed by the
    properties of the handlers.

    Python's unbounded [int] is [Z], [str] is [string], [float] is the
    primitive binary64 [float], [None] is [None], and the dictionary
    [items : dict[int, Item]] is a [gmap Z Item.t].  A handler is a
    state-passing function over that dictionary. *)

From Stdlib Require Import ZArith String List Sorted PrimFloat.
From stdpp Require Import gmap strings list fin_maps.

Local Open Scope string_scope.
Local Open Scope Z_scope.

(** ** Status codes ([fastapi.status]) *)

Definition HTTP_200_OK : Z := 200.
Definition HTTP_201_CREATED : Z := 201.
Definition HTTP_204_NO_CONTENT : Z := 204.
Definition HTTP_401_UNAUTHORIZED : Z := 401.
Definition HTTP_404_NOT_FOUND : Z := 404.

(** ** Data models *)

(** [class Item(BaseModel)].  The annotations [name: str] and
    [price: float] are checked when a request body is parsed, not when an
    object is rebuilt by [copy(update=...)]; at run time each attribute
    holds a value or [None], so every field is an [option]. *)
Module Item.

Record t : Type := Build
  { name : option string;
    description : option string;
    price : option float;
    tax : option float }.

(** The schema of the class: [name] and [price] have no default and are
    not optional. *)
Definition valid (i : t) : Prop :=
  is_Some (name i) ∧ is_Some (price i).

End Item.

(** The dictionary [item.dict(exclude_unset=True)] of an [ItemUpdate]:
    a key is absent ([None]) or bound to a value, which may itself be
    [None]. *)
Module Update.

Record t : Type := Build
  { name : option (option string);
    description : option (option string);
    price : option (option float);
    tax : option (option float) }.

End Update.

(** [class ItemUpdate(BaseModel)]: the four attributes, all defaulting to
    [None], and pydantic's [__fields_set__], the names of the fields the
    body supplied. *)
Module ItemUpdate.

Record t : Type := Build
  { name : option string;
    description : option string;
    price : option float;
    tax : option float;
    fields_set : gset string }.

(** One entry of [dict(exclude_unset=...)]. *)
Definition entry {A} (exclude_unset : bool) (u : t) (field : string)
    (v : option A) : option (option A) :=
  if exclude_unset && negb (bool_decide (field ∈ fields_set u))
  then None else Some v.

(** [item.dict(exclude_unset=...)] *)
Definition dict (exclude_unset : bool) (u : t) : Update.t :=
  {| Update.name := entry exclude_unset u "name" (name u);
     Update.description :=
       entry exclude_unset u "description" (description u);
     Update.price := entry exclude_unset u "price" (price u);
     Update.tax := entry exclude_unset u "tax" (tax u) |}.

End ItemUpdate.

(** [stored.copy(update=d)]: a new object with the attributes of
    [stored], those bound in [d] replaced; nothing is validated. *)
Definition copy (stored : Item.t) (update : Update.t) : Item.t :=
  {| Item.name := default (Item.name stored) (Update.name update);
     Item.description :=
       default (Item.description stored) (Update.description update);
     Item.price := default (Item.price stored) (Update.price update);
     Item.tax := default (Item.tax stored) (Update.tax update) |}.

(** ** Values returned by the handlers *)

Inductive value : Type :=
| VNone
| VInt (n : Z)
| VStr (s : string)
| VFloat (x : float)
| VItem (i : Item.t).

Definition of_str (o : option string) : value :=
  match o with Some s => VStr s | None => VNone end.

Definition of_float (o : option float) : value :=
  match o with Some x => VFloat x | None => VNone end.

Definition of_item (o : option Item.t) : value :=
  match o with Some i => VItem i | None => VNone end.

(** [item.dict()] *)
Definition Item_dict (i : Item.t) : list (string * value) :=
  [ ("name", of_str (Item.name i));
    ("description", of_str (Item.description i));
    ("price", of_float (Item.price i));
    ("tax", of_float (Item.tax i)) ].

(** What a route sends: a dictionary the framework serialises under the
    status code of the route, or a [Response] built by the handler. *)
Inductive body : Type :=
| Json (d : list (string * value))
| Content (s : string).

Record Response : Type := mkResponse
  { status_code : Z;
    content : body }.

(** [Response(status_code=s)], with the default empty content. *)
Definition Response_of (s : Z) : Response :=
  {| status_code := s; content := Content "" |}.

(** ** The store and the handler monad *)

(** [M A]: a computation over the global [items] returning an [A]. *)
Definition M (A : Type) : Type := gmap Z Item.t → A * gmap Z Item.t.

#[export] Instance M_ret : MRet M := λ A a items, (a, items).
#[export] Instance M_bind : MBind M :=
  λ A B f m items, let '(a, items') := m items in f a items'.
#[export] Instance M_fmap : FMap M :=
  λ A B f m items, let '(a, items') := m items in (f a, items').

(** [items.get(k)] *)
Definition items_get (k : Z) : M (option Item.t) :=
  λ items, (items !! k, items).

(** [k in items] *)
Definition items_contains (k : Z) : M bool :=
  λ items, (bool_decide (is_Some (items !! k)), items).

(** [items.keys()] *)
Definition items_keys : M (list Z) :=
  λ items, ((map_to_list items).*1, items).

(** [items[k] = v] *)
Definition items_set (k : Z) (v : Item.t) : M unit :=
  λ items, (tt, <[k := v]> items).

(** [del items[k]] *)
Definition items_del (k : Z) : M unit :=
  λ items, (tt, delete k items).

(** Python's [max(iterable, default=d)]: [d] on an empty iterable, else
    the largest element, whatever its sign. *)
Definition max_default (l : list Z) (d : Z) : Z :=
  match l with
  | [] => d
  | k :: ks => foldl Z.max k ks
  end.

(** ** Handlers *)

(** [GET /items/{item_id}] *)
Definition read_item (item_id : Z) (q : option string) : M Response :=
  item ← items_get item_id;
  mret {| status_code := HTTP_200_OK;
          content := Json [ ("item_id", VInt item_id);
                            ("item", of_item item);
                            ("q", of_str q) ] |}.

(** [POST /items/], [status_code=201] *)
Definition create_item (item : Item.t) : M Response :=
  keys ← items_keys;
  let new_id := max_default keys 0 + 1 in
  items_set new_id item ;;
  mret {| status_code := HTTP_201_CREATED;
          content := Json (("item_id", VInt new_id) :: Item_dict item) |}.

(** [PUT /items/{item_id}] *)
Definition replace_item (item_id : Z) (item : Item.t) : M Response :=
  items_set item_id item ;;
  mret {| status_code := HTTP_200_OK;
          content := Json (("item_id", VInt item_id) :: Item_dict item) |}.

(** [PATCH /items/{item_id}].  A model object is always truthy, so
    [not stored] holds exactly when [items.get] returned [None]. *)
Definition update_item (item_id : Z) (item : ItemUpdate.t) : M Response :=
  stored ← items_get item_id;
  match stored with
  | None => mret (Response_of HTTP_404_NOT_FOUND)
  | Some stored =>
      let updated := copy stored (ItemUpdate.dict true item) in
      items_set item_id updated ;;
      mret {| status_code := HTTP_200_OK;
              content :=
                Json (("item_id", VInt item_id) :: Item_dict updated) |}
  end.

(** [DELETE /items/{item_id}] *)
Definition delete_item (item_id : Z) : M Response :=
  present ← items_contains item_id;
  if present : bool then
    items_del item_id ;;
    mret (Response_of HTTP_204_NO_CONTENT)
  else mret (Response_of HTTP_404_NOT_FOUND).

(** Headers written on the [response] parameter the framework injects. *)
Definition headers : Type := list (string * string).

(** [response.headers[k] = v] *)
Definition headers_set (k v : string) (h : headers) : headers :=
  (k, v) :: filter (λ kv, kv.1 ≠ k) h.

(** [HEAD /items/{item_id}]: the header goes on the injected [response],
    the object returned is a fresh [Response]. *)
Definition head_item (item_id : Z) (response : headers)
    : M (headers * Response) :=
  present ← items_contains item_id;
  if present : bool then
    mret (headers_set "X-Item-Exists" "true" response,
          Response_of HTTP_200_OK)
  else mret (response, Response_of HTTP_404_NOT_FOUND).

(** [OPTIONS /items/] *)
Definition options_items (response : headers) : M (headers * Response) :=
  mret (headers_set "Allow" "GET,POST,PUT,PATCH,DELETE,HEAD,OPTIONS" response,
        Response_of HTTP_204_NO_CONTENT).

(** [POST /login/] *)
Definition login (username password : string) : M Response :=
  if bool_decide (username = "admin") && bool_decide (password = "secret")
  then mret {| status_code := HTTP_200_OK;
               content := Json [ ("status", VStr "success") ] |}
  else mret {| status_code := HTTP_401_UNAUTHORIZED;
               content := Content "Invalid credentials" |}.

(** [UploadFile]: the client's file name and the bytes [file.read()]
    yields. *)
Record UploadFile : Type := mkUploadFile
  { filename : option string;
    read : list Byte.byte }.

(** [POST /uploadfile/] *)
Definition upload_file (file : UploadFile) : M Response :=
  let contents := read file in
  mret {| status_code := HTTP_200_OK;
          content := Json [ ("filename", of_str (filename file));
                            ("size", VInt (Z.of_nat (length contents))) ] |}.

(** ** The routes *)

(** A request whose path, query, body and form parameters the framework
    has already parsed into the types the handlers declare. *)
Inductive Request : Type :=
| GET_item (item_id : Z) (q : option string)
| POST_items (item : Item.t)
| PUT_item (item_id : Z) (item : Item.t)
| PATCH_item (item_id : Z) (item : ItemUpdate.t)
| DELETE_item (item_id : Z)
| HEAD_item (item_id : Z)
| OPTIONS_items
| POST_login (username password : string)
| POST_uploadfile (file : UploadFile).

(** The route table of [app]; the injected [response] starts without
    headers. *)
Definition app (r : Request) : M Response :=
  match r with
  | GET_item item_id q => read_item item_id q
  | POST_items item => create_item item
  | PUT_item item_id item => replace_item item_id item
  | PATCH_item item_id item => update_item item_id item
  | DELETE_item item_id => delete_item item_id
  | HEAD_item item_id => snd <$> head_item item_id []
  | OPTIONS_items => snd <$> options_items []
  | POST_login username password => login username password
  | POST_uploadfile file => upload_file file
  end.

(** A session: the requests served one after the other; the responses
    and the dictionary left behind. *)
Fixpoint serve (rs : list Request) : M (list Response) :=
  match rs with
  | [] => mret []
  | r :: rs' =>
      resp ← app r;
      resps ← serve rs';
      mret (resp :: resps)
  end.

(** The [item_id] a response dictionary carries. *)
Definition item_id_of (r : Response) : option Z :=
  match content r with
  | Json (("item_id", VInt n) :: _) => Some n
  | _ => None
  end.

(** ** Sample data *)

Definition Pen : Item.t :=
  {| Item.name := Some "Pen"; Item.description := None;
     Item.price := Some 1.5%float; Item.tax := None |}.

Definition Ink : Item.t :=
  {| Item.name := Some "Ink"; Item.description := Some "blue";
     Item.price := Some 3%float; Item.tax := Some 0.5%float |}.

(** The body [{"price": 2.0}]. *)
Definition price_only : ItemUpdate.t :=
  {| ItemUpdate.name := None; ItemUpdate.description := None;
     ItemUpdate.price := Some 2%float; ItemUpdate.tax := None;
     ItemUpdate.fields_set := {["price"]} |}.

(** The body [{"name": null}]. *)
Definition name_null : ItemUpdate.t :=
  {| ItemUpdate.name := None; ItemUpdate.description := None;
     ItemUpdate.price := None; ItemUpdate.tax := None;
     ItemUpdate.fields_set := {["name"]} |}.

(** The body [{}]. *)
Definition nothing_set : ItemUpdate.t :=
  {| ItemUpdate.name := None; ItemUpdate.description := None;
     ItemUpdate.price := None; ItemUpdate.tax := None;
     ItemUpdate.fields_set := ∅ |}.

(** ** Vocabulary of the properties *)

(** The identifier line 29 computes: [max(items.keys(), default=0) + 1]. *)
Definition new_id (items : gmap Z Item.t) : Z :=
  max_default (map_to_list items).*1 0 + 1.

(** Every key of the dictionary is strictly positive. *)
Definition positive_keys (items : gmap Z Item.t) : Prop :=
  map_Forall (λ k _, 0 < k) items.

(** The four fields of the two models. *)
Inductive field : Type := Fname | Fdescription | Fprice | Ftax.

#[export] Instance field_eq_dec : EqDecision field.
Proof. solve_decision. Defined.

Definition key (f : field) : string :=
  match f with
  | Fname => "name"
  | Fdescription => "description"
  | Fprice => "price"
  | Ftax => "tax"
  end.

(** The stored item holds [None] in field [f]. *)
Definition is_null (f : field) (i : Item.t) : Prop :=
  match f with
  | Fname => Item.name i = None
  | Fdescription => Item.description i = None
  | Fprice => Item.price i = None
  | Ftax => Item.tax i = None
  end.

(** Fields [f] of [i] and [j] hold the same value. *)
Definition same_field (f : field) (i j : Item.t) : Prop :=
  match f with
  | Fname => Item.name i = Item.name j
  | Fdescription => Item.description i = Item.description j
  | Fprice => Item.price i = Item.price j
  | Ftax => Item.tax i = Item.tax j
  end.

(** The two answers of [login]. *)
Definition login_success : Response :=
  {| status_code := HTTP_200_OK;
     content := Json [ ("status", VStr "success") ] |}.

Definition login_refused : Response :=
  {| status_code := HTTP_401_UNAUTHORIZED;
     content := Content "Invalid credentials" |}.

(** The attribute [f] of a patch set to [None]. *)
Definition clear (f : field) (u : ItemUpdate.t) : ItemUpdate.t :=
  {| ItemUpdate.name :=
       match f with Fname => None | _ => ItemUpdate.name u end;
     ItemUpdate.description :=
       match f with Fdescription => None | _ => ItemUpdate.description u end;
     ItemUpdate.price :=
       match f with Fprice => None | _ => ItemUpdate.price u end;
     ItemUpdate.tax :=
       match f with Ftax => None | _ => ItemUpdate.tax u end;
     ItemUpdate.fields_set := ItemUpdate.fields_set u |}.

Definition with_fields_set (s : gset string) (u : ItemUpdate.t)
    : ItemUpdate.t :=
  {| ItemUpdate.name := ItemUpdate.name u;
     ItemUpdate.description := ItemUpdate.description u;
     ItemUpdate.price := ItemUpdate.price u;
     ItemUpdate.tax := ItemUpdate.tax u;
     ItemUpdate.fields_set := s |}.

(** The patch parsed from the body of [u] with ["f": null] written in
    it. *)
Definition explicit_null (f : field) (u : ItemUpdate.t) : ItemUpdate.t :=
  with_fields_set ({[key f]} ∪ ItemUpdate.fields_set u) (clear f u).

(** The patch parsed from the body of [u] with the member [f] left
    out. *)
Definition omitted (f : field) (u : ItemUpdate.t) : ItemUpdate.t :=
  with_fields_set (ItemUpdate.fields_set u ∖ {[key f]}) (clear f u).

(** The one key a request may bind, rebind or unbind, seen from the
    dictionary the request finds: the handlers index [items] at
    [item_id], and [create_item] at the identifier it computes. *)
Definition target (r : Request) (items : gmap Z Item.t) : option Z :=
  match r with
  | POST_items _ => Some (new_id items)
  | PUT_item item_id _ => Some item_id
  | PATCH_item item_id _ => Some item_id
  | DELETE_item item_id => Some item_id
  | _ => None
  end.

Definition is_POST_items (r : Request) : bool :=
  match r with POST_items _ => true | _ => false end.

Definition is_DELETE_item (r : Request) : bool :=
  match r with DELETE_item _ => true | _ => false end.

(** The identifiers answered to the [POST /items/] requests of a
    session, given its requests and their responses. *)
Fixpoint created_ids (rs : list Request) (resps : list Response)
    : list (option Z) :=
  match rs, resps with
  | r :: rs', resp :: resps' =>
      (if is_POST_items r then [item_id_of resp] else [])
        ++ created_ids rs' resps'
  | _, _ => []
  end.

(** Every stored item meets the schema of [Item]. *)
Definition store_valid (items : gmap Z Item.t) : Prop :=
  map_Forall (λ _ i, Item.valid i) items.

(** A patch that supplies no null for [name] or [price]. *)
Definition keeps_required (u : ItemUpdate.t) : Prop :=
  ("name" ∈ ItemUpdate.fields_set u → is_Some (ItemUpdate.name u)) ∧
  ("price" ∈ ItemUpdate.fields_set u → is_Some (ItemUpdate.price u)).

(** A request whose body, if it has one, keeps the required fields: an
    [Item] that meets its schema, a patch without null in them. *)
Definition valid_request (r : Request) : Prop :=
  match r with
  | POST_items item => Item.valid item
  | PUT_item _ item => Item.valid item
  | PATCH_item _ u => keeps_required u
  | _ => True
  end.

(** A PUT names a strictly positive identifier; any other request
    passes. *)
Definition positive_put (r : Request) : Prop :=
  match r with
  | PUT_item item_id _ => 0 < item_id
  | _ => True
  end.

(** ** Lemmas on [max_default] and the keys *)

Section Max.

Lemma foldl_max_ge (ks : list Z) (k : Z) : k ≤ foldl Z.max k ks.
Proof.
  revert k. induction ks as [|k' ks IH]; intros k; simpl; [lia|].
  etransitivity; [|apply IH]. lia.
Qed.

Lemma foldl_max_bound (ks : list Z) (k x : Z) :
  x ∈ ks → x ≤ foldl Z.max k ks.
Proof.
  revert k. induction ks as [|k' ks IH]; intros k Hx; simpl.
  - by apply elem_of_nil in Hx.
  - apply elem_of_cons in Hx as [->|Hx]; [|by apply IH].
    etransitivity; [|apply foldl_max_ge]. lia.
Qed.

Lemma foldl_max_elem (ks : list Z) (k : Z) :
  foldl Z.max k ks = k ∨ foldl Z.max k ks ∈ ks.
Proof.
  revert k. induction ks as [|k' ks IH]; intros k; simpl; [by left|].
  destruct (IH (Z.max k k')) as [->|Hin].
  - destruct (Z.max_spec k k') as [[_ ->]|[_ ->]]; [right; left|by left].
  - right; by right.
Qed.

Lemma max_default_bound (l : list Z) (d x : Z) :
  x ∈ l → x ≤ max_default l d.
Proof.
  destruct l as [|k ks]; simpl; intros Hx.
  - by apply elem_of_nil in Hx.
  - apply elem_of_cons in Hx as [->|Hx].
    + apply foldl_max_ge.
    + by apply foldl_max_bound.
Qed.

Lemma max_default_elem (l : list Z) (d : Z) :
  l ≠ [] → max_default l d ∈ l.
Proof.
  destruct l as [|k ks]; [done|]; intros _; simpl.
  destruct (foldl_max_elem ks k) as [->|Hin]; [left|by right].
Qed.

End Max.

Lemma elem_of_keys (items : gmap Z Item.t) (k : Z) :
  k ∈ (map_to_list items).*1 ↔ is_Some (items !! k).
Proof.
  rewrite list_elem_of_fmap. split.
  - intros [[k' v] [-> Hin]]. apply elem_of_map_to_list in Hin. by exists v.
  - intros [v Hv]. exists (k, v). split; [done|]. by apply elem_of_map_to_list.
Qed.

Lemma keys_nil (items : gmap Z Item.t) :
  (map_to_list items).*1 = [] ↔ items = ∅.
Proof.
  split.
  - intros H. apply fmap_nil_inv in H. by apply map_to_list_empty_iff.
  - intros ->. by rewrite map_to_list_empty.
Qed.

Lemma new_id_empty : new_id ∅ = 1.
Proof. unfold new_id. by rewrite map_to_list_empty. Qed.

Lemma new_id_above (items : gmap Z Item.t) (k : Z) :
  is_Some (items !! k) → k < new_id items.
Proof.
  intros Hk. apply elem_of_keys in Hk. unfold new_id.
  pose proof (max_default_bound _ 0 _ Hk). lia.
Qed.

Lemma new_id_fresh (items : gmap Z Item.t) : items !! new_id items = None.
Proof.
  destruct (items !! new_id items) eqn:E; [|done].
  assert (new_id items < new_id items); [|lia].
  apply new_id_above. by rewrite E.
Qed.

Lemma new_id_pred (items : gmap Z Item.t) :
  items ≠ ∅ → is_Some (items !! (new_id items - 1)).
Proof.
  intros Hne. apply elem_of_keys. unfold new_id.
  replace (max_default _ 0 + 1 - 1) with (max_default (map_to_list items).*1 0)
    by lia.
  apply max_default_elem. by rewrite keys_nil.
Qed.

(** The handlers, run on a dictionary. *)

Lemma create_item_run (item : Item.t) (items : gmap Z Item.t) :
  create_item item items =
    ({| status_code := HTTP_201_CREATED;
        content := Json (("item_id", VInt (new_id items)) :: Item_dict item) |},
     <[new_id items := item]> items).
Proof. reflexivity. Qed.

Lemma replace_item_run (item_id : Z) (item : Item.t) (items : gmap Z Item.t) :
  replace_item item_id item items =
    ({| status_code := HTTP_200_OK;
        content := Json (("item_id", VInt item_id) :: Item_dict item) |},
     <[item_id := item]> items).
Proof. reflexivity. Qed.

Lemma update_item_run (item_id : Z) (u : ItemUpdate.t) (items : gmap Z Item.t) :
  update_item item_id u items =
    match items !! item_id with
    | None => (Response_of HTTP_404_NOT_FOUND, items)
    | Some stored =>
        let updated := copy stored (ItemUpdate.dict true u) in
        ({| status_code := HTTP_200_OK;
            content := Json (("item_id", VInt item_id) :: Item_dict updated) |},
         <[item_id := updated]> items)
    end.
Proof.
  unfold update_item, mbind, M_bind, items_get. by destruct (items !! item_id).
Qed.

Lemma delete_item_run (item_id : Z) (items : gmap Z Item.t) :
  delete_item item_id items =
    match items !! item_id with
    | None => (Response_of HTTP_404_NOT_FOUND, items)
    | Some _ => (Response_of HTTP_204_NO_CONTENT, delete item_id items)
    end.
Proof.
  unfold delete_item, mbind, M_bind, items_contains.
  by destruct (items !! item_id).
Qed.

Lemma head_item_run (item_id : Z) (h : headers) (items : gmap Z Item.t) :
  head_item item_id h items =
    match items !! item_id with
    | None => ((h, Response_of HTTP_404_NOT_FOUND), items)
    | Some _ =>
        ((headers_set "X-Item-Exists" "true" h, Response_of HTTP_200_OK), items)
    end.
Proof.
  unfold head_item, mbind, M_bind, items_contains.
  by destruct (items !! item_id).
Qed.

(** ** PATCH: the merge *)

Lemma default_entry {A} (u : ItemUpdate.t) (f : string) (old v : option A) :
  default old (ItemUpdate.entry true u f v) =
    if bool_decide (f ∈ ItemUpdate.fields_set u) then v else old.
Proof. unfold ItemUpdate.entry. by case_bool_decide. Qed.

(** C1. For a stored item [i] and a patch [u], each of the four fields of
    the merged item is [u]'s when [u] supplies the field (its name is in
    the fields set of [u]) and [i]'s otherwise; [update_item] stores the
    merged item under the same identifier and returns it with status 200. *)
Theorem update_item_merge (items : gmap Z Item.t) (item_id : Z)
    (i : Item.t) (u : ItemUpdate.t) :
  items !! item_id = Some i →
  let merged := copy i (ItemUpdate.dict true u) in
  Item.name merged =
    (if bool_decide ("name" ∈ ItemUpdate.fields_set u)
     then ItemUpdate.name u else Item.name i) ∧
  Item.description merged =
    (if bool_decide ("description" ∈ ItemUpdate.fields_set u)
     then ItemUpdate.description u else Item.description i) ∧
  Item.price merged =
    (if bool_decide ("price" ∈ ItemUpdate.fields_set u)
     then ItemUpdate.price u else Item.price i) ∧
  Item.tax merged =
    (if bool_decide ("tax" ∈ ItemUpdate.fields_set u)
     then ItemUpdate.tax u else Item.tax i) ∧
  update_item item_id u items =
    ({| status_code := 200;
        content := Json (("item_id", VInt item_id) :: Item_dict merged) |},
     <[item_id := merged]> items) ∧
  (update_item item_id u items).2 !! item_id = Some merged.
Proof.
  intros Hi merged.
  repeat split; try apply default_entry.
  - by rewrite update_item_run, Hi.
  - rewrite update_item_run, Hi. simpl. apply lookup_insert_eq.
Qed.

Lemma update_item_merge_witness :
  update_item 1 price_only {[1 := Pen]} =
    ({| status_code := 200;
        content := Json [ ("item_id", VInt 1); ("name", VStr "Pen");
                          ("description", VNone); ("price", VFloat 2);
                          ("tax", VNone) ] |},
     <[1 := {| Item.name := Some "Pen"; Item.description := None;
               Item.price := Some 2%float; Item.tax := None |}]>
       {[1 := Pen]}).
Proof.
  assert (H : ({[1 := Pen]} : gmap Z Item.t) !! 1 = Some Pen)
    by apply lookup_singleton_eq.
  exact (proj1 (proj2 (proj2 (proj2 (proj2
           (update_item_merge {[1 := Pen]} 1 Pen price_only H)))))).
Defined.

(** ** POST /items/: the identifier *)

Lemma serve_cons (r : Request) (rs : list Request) (items : gmap Z Item.t) :
  serve (r :: rs) items =
    ((app r items).1 :: (serve rs (app r items).2).1,
     (serve rs (app r items).2).2).
Proof.
  simpl. unfold mbind, M_bind, mret, M_ret.
  destruct (app r items) as [resp items1]; simpl.
  by destruct (serve rs items1).
Qed.

Lemma serve_create_ids (its : list Item.t) (items : gmap Z Item.t) :
  ∃ ids : list Z,
    item_id_of <$> (serve (POST_items <$> its) items).1 = Some <$> ids ∧
    Forall (λ k, new_id items ≤ k) ids ∧
    NoDup ids.
Proof.
  revert items. induction its as [|it its IH]; intros items.
  - exists []. repeat split; constructor.
  - destruct (IH (<[new_id items := it]> items)) as (ids & Hids & Hge & Hnd).
    exists (new_id items :: ids).
    assert (Hlt : new_id items < new_id (<[new_id items := it]> items)).
    { apply new_id_above. rewrite lookup_insert_eq. eauto. }
    rewrite fmap_cons, serve_cons. simpl app. rewrite create_item_run.
    cbn [fst snd]. repeat split.
    + rewrite fmap_cons, Hids. reflexivity.
    + constructor; [lia|].
      eapply Forall_impl; [exact Hge|]. simpl. intros; lia.
    + constructor; [|done].
      intros Hin. rewrite Forall_forall in Hge. specialize (Hge _ Hin). lia.
Qed.

(** C2. [create_item] takes as identifier the largest key of the
    dictionary plus one, and 1 on the empty dictionary; it binds the item
    to that identifier and returns it with status 201.  The identifier
    is not a key of the dictionary the call found, and the identifiers
    returned by consecutive calls are pairwise distinct.  On the empty
    dictionary the body [{"name": "Pen", "price": 1.5}] is answered with
    identifier 1 and [null] for [description] and [tax]. *)
Theorem create_item_new_id :
  (∀ (item : Item.t) (items : gmap Z Item.t),
      let id := max_default (map_to_list items).*1 0 + 1 in
      create_item item items =
        ({| status_code := 201;
            content := Json (("item_id", VInt id) :: Item_dict item) |},
         <[id := item]> items) ∧
      (items = ∅ → id = 1) ∧
      (items ≠ ∅ →
         is_Some (items !! (id - 1)) ∧
         ∀ k, is_Some (items !! k) → k ≤ id - 1) ∧
      items !! id = None ∧
      (create_item item items).2 !! id = Some item) ∧
  (∀ (its : list Item.t) (items : gmap Z Item.t),
      ∃ ids : list Z,
        item_id_of <$> (serve (POST_items <$> its) items).1 = Some <$> ids ∧
        NoDup ids) ∧
  create_item Pen ∅ =
    ({| status_code := 201;
        content := Json [ ("item_id", VInt 1); ("name", VStr "Pen");
                          ("description", VNone); ("price", VFloat 1.5);
                          ("tax", VNone) ] |},
     {[1 := Pen]}).
Proof.
  split; [|split].
  - intros item items id. fold (new_id items) in id. subst id.
    split; [apply create_item_run|]. split; [|split; [|split]].
    + intros ->. apply new_id_empty.
    + intros Hne. split; [by apply new_id_pred|].
      intros k Hk. apply new_id_above in Hk. lia.
    + apply new_id_fresh.
    + rewrite create_item_run. apply lookup_insert_eq.
  - intros its items.
    destruct (serve_create_ids its items) as (ids & H1 & _ & H2). eauto.
  - rewrite create_item_run, new_id_empty. reflexivity.
Qed.

(** ** Unknown identifiers *)

(** C3. On an identifier that is not a key of the dictionary, PATCH,
    DELETE and HEAD answer 404 and leave the dictionary as it was. *)
Theorem missing_item_404 (items : gmap Z Item.t) (item_id : Z)
    (u : ItemUpdate.t) (h : headers) :
  items !! item_id = None →
  update_item item_id u items = (Response_of 404, items) ∧
  delete_item item_id items = (Response_of 404, items) ∧
  head_item item_id h items = ((h, Response_of 404), items) ∧
  app (PATCH_item item_id u) items = (Response_of 404, items) ∧
  app (DELETE_item item_id) items = (Response_of 404, items) ∧
  app (HEAD_item item_id) items = (Response_of 404, items).
Proof.
  intros Hnone.
  assert (Hhead : ∀ h', head_item item_id h' items
                        = ((h', Response_of 404), items)).
  { intros h'. by rewrite head_item_run, Hnone. }
  repeat split.
  - by rewrite update_item_run, Hnone.
  - by rewrite delete_item_run, Hnone.
  - apply Hhead.
  - simpl. by rewrite update_item_run, Hnone.
  - simpl. by rewrite delete_item_run, Hnone.
  - simpl. unfold fmap, M_fmap. by rewrite Hhead.
Qed.

Lemma missing_item_404_witness :
  update_item 7 price_only {[1 := Pen]} = (Response_of 404, {[1 := Pen]}) ∧
  delete_item 7 {[1 := Pen]} = (Response_of 404, {[1 := Pen]}) ∧
  head_item 7 [] {[1 := Pen]} = (([], Response_of 404), {[1 := Pen]}) ∧
  app (PATCH_item 7 price_only) {[1 := Pen]}
    = (Response_of 404, {[1 := Pen]}) ∧
  app (DELETE_item 7) {[1 := Pen]} = (Response_of 404, {[1 := Pen]}) ∧
  app (HEAD_item 7) {[1 := Pen]} = (Response_of 404, {[1 := Pen]}).
Proof.
  apply (missing_item_404 {[1 := Pen]} 7 price_only []).
  apply lookup_singleton_ne. lia.
Defined.

(** ** GET *)

(** C4. [read_item] answers 200 for every identifier, with the body
    [{item_id, item, q}] in which [item] is the stored item, or [null]
    when the identifier is not a key; it never answers 404 and leaves the
    dictionary as it was. *)
Theorem read_item_200 (items : gmap Z Item.t) (item_id : Z)
    (q : option string) :
  read_item item_id q items =
    ({| status_code := 200;
        content := Json [ ("item_id", VInt item_id);
                          ("item", match items !! item_id with
                                   | Some i => VItem i
                                   | None => VNone
                                   end);
                          ("q", of_str q) ] |},
     items) ∧
  status_code (app (GET_item item_id q) items).1 = 200 ∧
  status_code (app (GET_item item_id q) items).1 ≠ 404 ∧
  (app (GET_item item_id q) items).2 = items.
Proof. repeat split. simpl. unfold HTTP_200_OK. lia. Qed.

(** ** The sign of the keys *)

Lemma new_id_positive (items : gmap Z Item.t) :
  positive_keys items → 0 < new_id items.
Proof.
  intros Hpos. destruct (decide (items = ∅)) as [->|Hne].
  - by rewrite new_id_empty.
  - destruct (new_id_pred items Hne) as [i Hi].
    apply (map_Forall_lookup_1 _ _ _ _ Hpos) in Hi. lia.
Qed.

Lemma positive_keys_insert (items : gmap Z Item.t) (k : Z) (i : Item.t) :
  positive_keys items → 0 < k → positive_keys (<[k := i]> items).
Proof. intros Hpos Hk. by apply map_Forall_insert_2. Qed.

Lemma positive_keys_update (items : gmap Z Item.t) (k : Z) (u : ItemUpdate.t) :
  positive_keys items → positive_keys (update_item k u items).2.
Proof.
  intros Hpos. rewrite update_item_run.
  destruct (items !! k) as [stored|] eqn:E; [|done].
  apply positive_keys_insert; [done|].
  exact (map_Forall_lookup_1 _ _ _ _ Hpos E).
Qed.

Lemma positive_keys_delete (items : gmap Z Item.t) (k : Z) :
  positive_keys items → positive_keys (delete_item k items).2.
Proof.
  intros Hpos. rewrite delete_item_run.
  destruct (items !! k); [|done]. by apply map_Forall_delete.
Qed.

(** The claim C5 as the specification words it fails: a PUT on the
    identifier 0 binds the key 0. *)
Lemma put_zero_breaks_positive_keys :
  ¬ (∀ (r : Request) (items : gmap Z Item.t),
       positive_keys items → positive_keys (app r items).2).
Proof.
  intros H.
  pose proof (H (PUT_item 0 Pen) ∅ (map_Forall_empty _)) as Hbad.
  simpl in Hbad. apply map_Forall_insert_1_1 in Hbad. lia.
Qed.

(** C5, amended. A request leaves every key strictly positive, when
    every key was, exactly when it is not a PUT on an identifier that is
    zero or negative.  So every
    operation but PUT preserves the invariant, and PUT preserves it for
    the strictly positive identifiers only. *)
Theorem positive_keys_preserved (r : Request) (items : gmap Z Item.t) :
  positive_keys items →
  (positive_keys (app r items).2 ↔
   ∀ item_id item, r = PUT_item item_id item → 0 < item_id).
Proof.
  intros Hpos. destruct r as [id q|it|id it|id u|id|id| |us pw|file];
    simpl app.
  - split; [discriminate|done].
  - split; [discriminate|]. intros _. rewrite create_item_run. simpl.
    apply positive_keys_insert; [done|by apply new_id_positive].
  - rewrite replace_item_run. simpl. split.
    + intros H id' it' [= <- <-]. by apply map_Forall_insert_1_1 in H.
    + intros H. apply positive_keys_insert; [done|by eapply H].
  - split; [discriminate|]. intros _. by apply positive_keys_update.
  - split; [discriminate|]. intros _. by apply positive_keys_delete.
  - split; [discriminate|]. intros _. unfold fmap, M_fmap.
    rewrite head_item_run. by destruct (items !! id).
  - split; [discriminate|done].
  - split; [discriminate|]. intros _. unfold login.
    by destruct (_ && _).
  - split; [discriminate|done].
Qed.

Lemma positive_keys_preserved_witness :
  positive_keys (app (PUT_item 3 Ink) {[1 := Pen]}).2 ↔
  ∀ item_id item, PUT_item 3 Ink = PUT_item item_id item → 0 < item_id.
Proof.
  apply (positive_keys_preserved (PUT_item 3 Ink) {[1 := Pen]}).
  apply map_Forall_singleton. lia.
Defined.

(** ** PUT *)

(** C7. [replace_item] answers 200 whether or not the identifier was a
    key, and binds the identifier to the body; the same PUT repeated any
    number of times leaves the dictionary one PUT leaves. *)
Theorem replace_item_idempotent (items : gmap Z Item.t) (item_id : Z)
    (item : Item.t) (n : nat) :
  replace_item item_id item items =
    ({| status_code := 200;
        content := Json (("item_id", VInt item_id) :: Item_dict item) |},
     <[item_id := item]> items) ∧
  (replace_item item_id item items).2 !! item_id = Some item ∧
  (serve (replicate (S n) (PUT_item item_id item)) items).2 =
    (replace_item item_id item items).2 ∧
  (serve (replicate (S n) (PUT_item item_id item)) items).1 =
    replicate (S n) (replace_item item_id item items).1.
Proof.
  split; [reflexivity|]. split; [apply lookup_insert_eq|].
  revert items. induction n as [|n IH]; intros items.
  - cbn [replicate]. by rewrite serve_cons.
  - destruct (IH (replace_item item_id item items).2) as [IH1 IH2].
    rewrite (replicate_S (S n)), serve_cons. simpl app. cbn [fst snd].
    rewrite IH1, IH2, !replace_item_run. cbn [fst snd].
    rewrite insert_insert_eq. split; reflexivity.
Qed.

(** ** POST /login/ *)

Lemma login_run (username password : string) (items : gmap Z Item.t) :
  login username password items =
    (if bool_decide (username = "admin" ∧ password = "secret")
     then login_success else login_refused,
     items).
Proof.
  unfold login.
  case_bool_decide as Hu; case_bool_decide as Hp; simpl;
    case_bool_decide as Hup; try reflexivity; tauto.
Qed.

(** C8. [login] answers 200 with [{"status": "success"}] exactly when
    the user name is ["admin"] and the password is ["secret"], and 401
    with the text ["Invalid credentials"] in every other case; the answer
    does not depend on the dictionary, which is left as it was. *)
Theorem login_literal_pair (username password : string)
    (items items' : gmap Z Item.t) :
  ((login username password items).1 = login_success ↔
     username = "admin" ∧ password = "secret") ∧
  ((login username password items).1 = login_refused ↔
     ¬ (username = "admin" ∧ password = "secret")) ∧
  (login username password items).1 = (login username password items').1 ∧
  (login username password items).2 = items ∧
  app (POST_login username password) items = login username password items.
Proof.
  rewrite !login_run. simpl app. rewrite login_run. cbn [fst snd].
  case_bool_decide as Hup.
  - repeat split; try done; try apply Hup.
  - repeat split; try done; try discriminate.
Qed.

(** ** PATCH: a field left out and a field set to null *)

Lemma key_inj (f g : field) : key f = key g → f = g.
Proof. by destruct f, g. Qed.

Lemma explicit_null_in (f g : field) (u : ItemUpdate.t) :
  key g ∈ ItemUpdate.fields_set (explicit_null f u) ↔
  g = f ∨ key g ∈ ItemUpdate.fields_set u.
Proof.
  unfold explicit_null. simpl. rewrite elem_of_union, elem_of_singleton.
  split; (intros [H|H]; [left|by right]); [by apply key_inj|by rewrite H].
Qed.

Lemma omitted_in (f g : field) (u : ItemUpdate.t) :
  key g ∈ ItemUpdate.fields_set (omitted f u) ↔
  g ≠ f ∧ key g ∈ ItemUpdate.fields_set u.
Proof.
  unfold omitted. simpl. rewrite elem_of_difference, elem_of_singleton.
  split; intros [H1 H2]; split; try done.
  - intros ->. by apply H2.
  - intros H. by apply H1, key_inj.
Qed.

(** The item a patch with ["f": null] leaves holds [None] in [f]. *)
Lemma copy_explicit_null (f : field) (stored : Item.t) (u : ItemUpdate.t) :
  is_null f (copy stored (ItemUpdate.dict true (explicit_null f u))).
Proof.
  assert (Hin : key f ∈ ItemUpdate.fields_set (explicit_null f u))
    by (apply explicit_null_in; by left).
  destruct f; unfold is_null, copy; cbn [Item.name Item.description
    Item.price Item.tax ItemUpdate.dict Update.name Update.description
    Update.price Update.tax];
    rewrite default_entry, bool_decide_eq_true_2; done.
Qed.

(** The item a patch without [f] leaves holds in [f] what was stored. *)
Lemma copy_omitted (f : field) (stored : Item.t) (u : ItemUpdate.t) :
  same_field f (copy stored (ItemUpdate.dict true (omitted f u))) stored.
Proof.
  assert (Hout : key f ∉ ItemUpdate.fields_set (omitted f u))
    by (rewrite omitted_in; by intros [? _]).
  destruct f; unfold same_field, copy; cbn [Item.name Item.description
    Item.price Item.tax ItemUpdate.dict Update.name Update.description
    Update.price Update.tax];
    rewrite default_entry, bool_decide_eq_false_2; done.
Qed.

(** On the other fields the two patches agree. *)
Lemma copy_other_field (f g : field) (stored : Item.t) (u : ItemUpdate.t) :
  g ≠ f →
  same_field g (copy stored (ItemUpdate.dict true (explicit_null f u)))
               (copy stored (ItemUpdate.dict true (omitted f u))).
Proof.
  intros Hne.
  assert (Hiff : bool_decide (key g ∈ ItemUpdate.fields_set (explicit_null f u))
                 = bool_decide (key g ∈ ItemUpdate.fields_set (omitted f u))).
  { apply bool_decide_ext. rewrite explicit_null_in, omitted_in. tauto. }
  destruct g; cbn [key] in Hiff; unfold same_field, copy;
    cbn [Item.name Item.description Item.price Item.tax ItemUpdate.dict
         Update.name Update.description Update.price Update.tax];
    rewrite !default_entry, Hiff; reflexivity.
Qed.

Lemma same_field_all (i j : Item.t) :
  (∀ g, same_field g i j) → i = j.
Proof.
  intros H. destruct i, j.
  pose proof (H Fname). pose proof (H Fdescription).
  pose proof (H Fprice). pose proof (H Ftax). simpl in *. congruence.
Qed.

Lemma is_null_same_field (f : field) (i j : Item.t) :
  same_field f i j → is_null f i ↔ is_null f j.
Proof. destruct f; simpl; intros ->; done. Qed.

Lemma copy_null_vs_omitted (f : field) (stored : Item.t) (u : ItemUpdate.t) :
  copy stored (ItemUpdate.dict true (explicit_null f u)) =
    copy stored (ItemUpdate.dict true (omitted f u)) ↔
  is_null f stored.
Proof.
  pose proof (copy_explicit_null f stored u) as Hnull.
  pose proof (copy_omitted f stored u) as Hkept.
  split.
  - intros Heq. rewrite Heq in Hnull.
    by apply (is_null_same_field f _ _ Hkept).
  - intros Hs. apply same_field_all. intros g.
    destruct (decide (g = f)) as [->|Hne]; [|by apply copy_other_field].
    apply (is_null_same_field f _ _ Hkept) in Hs.
    destruct f; simpl in *; congruence.
Qed.

(** The claim C6 as the specification words it fails: on a stored pen,
    the body [{"name": null}] erases the name and the body [{}] keeps
    it. *)
Lemma explicit_null_not_omitted :
  ¬ (∀ (items : gmap Z Item.t) (item_id : Z) (stored : Item.t)
       (f : field) (u : ItemUpdate.t),
       items !! item_id = Some stored →
       (update_item item_id (explicit_null f u) items).2 =
         (update_item item_id (omitted f u) items).2).
Proof.
  intros H.
  pose proof (H {[1 := Pen]} 1 Pen Fname nothing_set
                (lookup_singleton_eq _ _)) as Heq.
  apply (f_equal (λ m : gmap Z Item.t, m !! 1)) in Heq.
  vm_compute in Heq. discriminate Heq.
Qed.

(** C6, amended. PATCH tells a field set to null from a field left out:
    with the field null in the body the stored item comes to hold null
    in it, with the field left out the stored item keeps its value, and
    the two requests leave the same dictionary exactly when the stored
    field was null already. *)
Theorem explicit_null_vs_omitted (items : gmap Z Item.t) (item_id : Z)
    (stored : Item.t) (f : field) (u : ItemUpdate.t) :
  items !! item_id = Some stored →
  (∃ i, (update_item item_id (explicit_null f u) items).2 !! item_id = Some i
        ∧ is_null f i) ∧
  (∃ i, (update_item item_id (omitted f u) items).2 !! item_id = Some i
        ∧ same_field f i stored) ∧
  ((update_item item_id (explicit_null f u) items).2 =
     (update_item item_id (omitted f u) items).2 ↔
   is_null f stored).
Proof.
  intros Hs. rewrite !update_item_run, Hs. cbn [fst snd].
  split; [|split].
  - eexists. rewrite lookup_insert_eq. split; [done|].
    apply copy_explicit_null.
  - eexists. rewrite lookup_insert_eq. split; [done|]. apply copy_omitted.
  - rewrite <- (copy_null_vs_omitted f stored u). split.
    + intros Heq.
      apply (f_equal (λ m : gmap Z Item.t, m !! item_id)) in Heq.
      simpl in Heq. rewrite !lookup_insert_eq in Heq. congruence.
    + by intros ->.
Qed.

Lemma explicit_null_vs_omitted_witness :
  (∃ i, (update_item 1 (explicit_null Ftax price_only) {[1 := Pen]}).2 !! 1
          = Some i ∧ is_null Ftax i) ∧
  (∃ i, (update_item 1 (omitted Ftax price_only) {[1 := Pen]}).2 !! 1
          = Some i ∧ same_field Ftax i Pen) ∧
  ((update_item 1 (explicit_null Ftax price_only) {[1 := Pen]}).2 =
     (update_item 1 (omitted Ftax price_only) {[1 := Pen]}).2 ↔
   is_null Ftax Pen).
Proof.
  apply (explicit_null_vs_omitted {[1 := Pen]} 1 Pen Ftax price_only).
  apply lookup_singleton_eq.
Defined.

(** ** PATCH: null in a required field *)

(** C9. When the body of a PATCH on a stored item sets [name] (or
    [price]) to null, the item stored and returned holds null in that
    field, and so fails the schema of [Item]; the dictionary comes to
    hold such an entry after a POST of a pen and a PATCH with
    [{"name": null}]. *)
Theorem update_item_null_required (items : gmap Z Item.t) (item_id : Z)
    (stored : Item.t) (u : ItemUpdate.t) :
  items !! item_id = Some stored →
  ("name" ∈ ItemUpdate.fields_set u → ItemUpdate.name u = None →
     ∃ updated,
       update_item item_id u items =
         ({| status_code := 200;
             content := Json (("item_id", VInt item_id) :: ("name", VNone)
                                :: tail (Item_dict updated)) |},
          <[item_id := updated]> items) ∧
       (update_item item_id u items).2 !! item_id = Some updated ∧
       Item.name updated = None ∧ ¬ Item.valid updated) ∧
  ("price" ∈ ItemUpdate.fields_set u → ItemUpdate.price u = None →
     ∃ updated,
       update_item item_id u items =
         ({| status_code := 200;
             content := Json (("item_id", VInt item_id) :: Item_dict updated) |},
          <[item_id := updated]> items) ∧
       (update_item item_id u items).2 !! item_id = Some updated ∧
       Item.price updated = None ∧
       of_float (Item.price updated) = VNone ∧ ¬ Item.valid updated) ∧
  (∃ updated,
     (serve [POST_items Pen; PATCH_item 1 name_null] ∅).2 !! 1 = Some updated
     ∧ ¬ Item.valid updated).
Proof.
  intros Hs. rewrite !update_item_run, Hs. cbn [fst snd].
  split; [|split].
  - intros Hin Hnone. eexists. split; [|split; [apply lookup_insert_eq|]].
    + unfold Item_dict. cbn [tail Item.name copy ItemUpdate.dict Update.name].
      rewrite default_entry, bool_decide_eq_true_2, Hnone by done.
      reflexivity.
    + assert (Hn : Item.name (copy stored (ItemUpdate.dict true u)) = None).
      { cbn [Item.name copy ItemUpdate.dict Update.name].
        by rewrite default_entry, bool_decide_eq_true_2. }
      split; [done|]. intros [[? Hx] _]. congruence.
  - intros Hin Hnone. eexists. split; [done|].
    split; [apply lookup_insert_eq|].
    assert (Hn : Item.price (copy stored (ItemUpdate.dict true u)) = None).
    { cbn [Item.price copy ItemUpdate.dict Update.price].
      by rewrite default_entry, bool_decide_eq_true_2. }
    split; [done|]. split; [by rewrite Hn|]. intros [_ [? Hx]]. congruence.
  - eexists. split; [vm_compute; reflexivity|].
    intros [[? Hx] _]. discriminate Hx.
Qed.

Lemma update_item_null_required_witness :
  ∃ updated,
    update_item 1 name_null {[1 := Pen]} =
      ({| status_code := 200;
          content := Json (("item_id", VInt 1) :: ("name", VNone)
                             :: tail (Item_dict updated)) |},
       <[1 := updated]> {[1 := Pen]}) ∧
    (update_item 1 name_null {[1 := Pen]}).2 !! 1 = Some updated ∧
    Item.name updated = None ∧ ¬ Item.valid updated.
Proof.
  apply (update_item_null_required {[1 := Pen]} 1 Pen name_null).
  - apply lookup_singleton_eq.
  - vm_compute. reflexivity.
  - reflexivity.
Defined.

(** ** Identifiers after a DELETE *)

Lemma new_id_after_delete_max (items : gmap Z Item.t) (k : Z) :
  (∀ k', is_Some (items !! k') → k' ≤ k) →
  new_id (delete k items) = k ↔
  is_Some (items !! (k - 1)) ∨ (delete k items = ∅ ∧ k = 1).
Proof.
  intros Hmax. split.
  - intros Heq. destruct (decide (delete k items = ∅)) as [He|Hne].
    + right. split; [done|]. by rewrite He, new_id_empty in Heq.
    + left. destruct (new_id_pred _ Hne) as [i Hi].
      apply lookup_delete_Some in Hi as [_ Hi]. rewrite Heq in Hi. eauto.
  - intros [[i Hi]|[He ->]]; [|by rewrite He, new_id_empty].
    assert (k - 1 < new_id (delete k items)).
    { apply new_id_above. exists i. apply lookup_delete_Some.
      split; [lia|done]. }
    destruct (decide (new_id (delete k items) ≤ k)) as [|Hgt]; [lia|].
    assert (Hne : delete k items ≠ ∅).
    { intros He. apply (f_equal (λ m : gmap Z Item.t, m !! (k - 1))) in He.
      simpl in He. rewrite lookup_delete_ne, lookup_empty, Hi in He by lia.
      discriminate He. }
    destruct (new_id_pred _ Hne) as [j Hj].
    apply lookup_delete_Some in Hj as [Hkj Hj].
    assert (new_id (delete k items) - 1 ≤ k) by (apply Hmax; eauto). lia.
Qed.

(** The claim C10 as the specification words it fails: with the keys 1
    and 5, deleting the entry at 5 makes the next identifier 2. *)
Lemma delete_max_not_reused :
  ¬ (∀ (items : gmap Z Item.t) (k : Z) (item : Item.t),
       is_Some (items !! k) →
       (∀ k', is_Some (items !! k') → k' ≤ k) →
       item_id_of (create_item item (delete_item k items).2).1 = Some k).
Proof.
  intros H.
  assert (Hmax : ∀ k', is_Some (({[1 := Pen; 5 := Ink]} : gmap Z Item.t) !! k')
                       → k' ≤ 5).
  { intros k' [i Hi]. apply lookup_insert_Some in Hi as [[<- _]|[_ Hi]]; [lia|].
    apply lookup_singleton_Some in Hi as [<- _]. lia. }
  assert (H5 : is_Some (({[1 := Pen; 5 := Ink]} : gmap Z Item.t) !! 5)).
  { exists Ink. vm_compute. reflexivity. }
  pose proof (H _ 5 Pen H5 Hmax) as Hbad.
  vm_compute in Hbad. discriminate Hbad.
Qed.

(** C10, amended. An identifier can come back after a DELETE: when the
    entry a create has just made is deleted, the next create returns its
    identifier again (create yields 1, delete 1, create yields 1), so the
    identifiers returned by creates interleaved with deletes are not
    pairwise distinct.  When the entry holding the largest key [k] is
    deleted, the next create returns the largest remaining key plus one
    (1 when none remains); that is [k] exactly when [k - 1] is a key, or
    no key remains and [k] is 1. *)
Theorem create_after_delete (items : gmap Z Item.t) (k : Z)
    (item : Item.t) :
  is_Some (items !! k) →
  (∀ k', is_Some (items !! k') → k' ≤ k) →
  delete_item k items = (Response_of 204, delete k items) ∧
  item_id_of (create_item item (delete_item k items).2).1 =
    Some (max_default (map_to_list (delete k items)).*1 0 + 1) ∧
  (item_id_of (create_item item (delete_item k items).2).1 = Some k ↔
   is_Some (items !! (k - 1)) ∨ (delete k items = ∅ ∧ k = 1)) ∧
  (∀ (items0 : gmap Z Item.t) (item1 item2 : Item.t),
     let id := new_id items0 in
     item_id_of <$>
       (serve [POST_items item1; DELETE_item id; POST_items item2] items0).1
     = [Some id; None; Some id]) ∧
  item_id_of <$>
    (serve [POST_items Pen; DELETE_item 1; POST_items Ink] ∅).1
  = [Some 1; None; Some 1].
Proof.
  intros [i Hi] Hmax.
  assert (Hdel : delete_item k items = (Response_of 204, delete k items)).
  { by rewrite delete_item_run, Hi. }
  rewrite Hdel. cbn [fst snd]. rewrite create_item_run. cbn [fst snd].
  split; [done|]. split; [done|]. split; [|split].
  - unfold item_id_of. cbn [content]. rewrite <- new_id_after_delete_max by done.
    split; congruence.
  - intros items0 item1 item2.
    rewrite !serve_cons. simpl app. rewrite create_item_run. cbn [fst snd].
    rewrite delete_item_run, lookup_insert_eq. cbn [fst snd].
    rewrite delete_insert_id by apply new_id_fresh.
    reflexivity.
  - vm_compute. reflexivity.
Qed.

Lemma create_after_delete_witness :
  delete_item 2 {[1 := Pen; 2 := Ink]}
    = (Response_of 204, delete 2 {[1 := Pen; 2 := Ink]}) ∧
  item_id_of (create_item Pen (delete_item 2 {[1 := Pen; 2 := Ink]}).2).1
    = Some 2.
Proof.
  assert (H2 : is_Some (({[1 := Pen; 2 := Ink]} : gmap Z Item.t) !! 2)).
  { exists Ink. vm_compute. reflexivity. }
  assert (Hmax : ∀ k', is_Some (({[1 := Pen; 2 := Ink]} : gmap Z Item.t) !! k')
                       → k' ≤ 2).
  { intros k' [i Hi]. apply lookup_insert_Some in Hi as [[<- _]|[_ Hi]]; [lia|].
    apply lookup_singleton_Some in Hi as [<- _]. lia. }
  destruct (create_after_delete {[1 := Pen; 2 := Ink]} 2 Pen H2 Hmax)
    as (Hdel & _ & Hiff & _).
  split; [exact Hdel|].
  apply Hiff. left. exists Pen. vm_compute. reflexivity.
Defined.

(** ** Sessions run from the empty dictionary *)

(** POST of a pen, then PATCH of its price. *)
Example post_then_patch :
  (serve [POST_items Pen; PATCH_item 1 price_only] ∅).1 =
    [ {| status_code := 201;
         content := Json [ ("item_id", VInt 1); ("name", VStr "Pen");
                           ("description", VNone); ("price", VFloat 1.5);
                           ("tax", VNone) ] |};
      {| status_code := 200;
         content := Json [ ("item_id", VInt 1); ("name", VStr "Pen");
                           ("description", VNone); ("price", VFloat 2);
                           ("tax", VNone) ] |} ].
Proof. vm_compute. reflexivity. Qed.

(** DELETE of the pen, then GET on its identifier. *)
Example delete_then_get :
  (serve [POST_items Pen; DELETE_item 1; GET_item 1 None] ∅).1 =
    [ {| status_code := 201;
         content := Json (("item_id", VInt 1) :: Item_dict Pen) |};
      {| status_code := 204; content := Content "" |};
      {| status_code := 200;
         content := Json [ ("item_id", VInt 1); ("item", VNone);
                           ("q", VNone) ] |} ].
Proof. vm_compute. reflexivity. Qed.

(** A PUT on a negative identifier, then a POST: the largest key is
    negative and the new identifier is not 1. *)
Example put_negative_then_post :
  item_id_of <$> (serve [PUT_item (-5) Ink; POST_items Pen] ∅).1 =
    [Some (-5); Some (-4)].
Proof. vm_compute. reflexivity. Qed.

(** The two answers of the login form. *)
Example login_admin :
  (serve [POST_login "admin" "secret"; POST_login "admin" "Secret"] ∅).1 =
    [login_success; login_refused].
Proof. vm_compute. reflexivity. Qed.

(** The size an upload reports is the number of bytes read. *)
Example upload_size :
  (app (POST_uploadfile {| filename := Some "a.txt";
                           read := [Byte.x68; Byte.x69] |}) ∅).1 =
    {| status_code := 200;
       content := Json [ ("filename", VStr "a.txt"); ("size", VInt 2) ] |}.
Proof. reflexivity. Qed.

(** ** DELETE and HEAD on a stored item *)

(** X1. On a key of the dictionary [delete_item] answers 204 and unbinds
    that key and no other; a GET on it then answers with [item] null and
    a second DELETE answers 404 without touching the dictionary. *)
Theorem delete_item_present (items : gmap Z Item.t) (item_id : Z)
    (i : Item.t) (q : option string) :
  items !! item_id = Some i →
  delete_item item_id items = (Response_of 204, delete item_id items) ∧
  (delete_item item_id items).2 !! item_id = None ∧
  (∀ k, k ≠ item_id → (delete_item item_id items).2 !! k = items !! k) ∧
  (serve [DELETE_item item_id; GET_item item_id q; DELETE_item item_id]
     items) =
    ([ Response_of 204;
       {| status_code := 200;
          content := Json [ ("item_id", VInt item_id); ("item", VNone);
                            ("q", of_str q) ] |};
       Response_of 404 ],
     delete item_id items).
Proof.
  intros Hi.
  assert (Hdel : delete_item item_id items
                 = (Response_of 204, delete item_id items)).
  { by rewrite delete_item_run, Hi. }
  rewrite Hdel. cbn [fst snd]. split; [done|].
  split; [apply lookup_delete_eq|].
  split; [intros k Hk; by apply lookup_delete_ne|].
  rewrite !serve_cons. simpl app. rewrite Hdel. cbn [fst snd].
  unfold read_item, mbind, M_bind, items_get, mret, M_ret. cbn [fst snd].
  rewrite delete_item_run, lookup_delete_eq. reflexivity.
Qed.

Lemma delete_item_present_witness :
  delete_item 1 {[1 := Pen]} = (Response_of 204, delete 1 {[1 := Pen]}).
Proof.
  apply (delete_item_present {[1 := Pen]} 1 Pen None).
  apply lookup_singleton_eq.
Defined.


(** ** Writing, then reading *)

(** X3. What a PUT or a POST stores, a GET on the identifier answered
    returns: after [replace_item item_id item] the item read at
    [item_id] is [item], and after [create_item item] the item read at
    the identifier of the response is [item]. *)
Theorem write_then_read (items : gmap Z Item.t) (item_id : Z)
    (item : Item.t) (q : option string) :
  (read_item item_id q (replace_item item_id item items).2).1 =
    {| status_code := 200;
       content := Json [ ("item_id", VInt item_id); ("item", VItem item);
                         ("q", of_str q) ] |} ∧
  (∃ id, item_id_of (create_item item items).1 = Some id ∧
         (read_item id q (create_item item items).2).1 =
           {| status_code := 200;
              content := Json [ ("item_id", VInt id); ("item", VItem item);
                                ("q", of_str q) ] |}).
Proof.
  split.
  - rewrite replace_item_run. cbn [fst snd].
    unfold read_item, mbind, M_bind, items_get, mret, M_ret. cbn [fst snd].
    by rewrite lookup_insert_eq.
  - exists (new_id items). rewrite create_item_run. cbn [fst snd].
    split; [reflexivity|].
    unfold read_item, mbind, M_bind, items_get, mret, M_ret. cbn [fst snd].
    by rewrite lookup_insert_eq.
Qed.

(** X4. A DELETE on the identifier a POST has just answered puts the
    dictionary back exactly as the POST found it. *)
Theorem create_then_delete_restores (items : gmap Z Item.t)
    (item : Item.t) :
  (serve [POST_items item; DELETE_item (new_id items)] items) =
    ([ {| status_code := 201;
          content := Json (("item_id", VInt (new_id items))
                             :: Item_dict item) |};
       Response_of 204 ],
     items).
Proof.
  rewrite !serve_cons. simpl app. rewrite create_item_run. cbn [fst snd].
  rewrite delete_item_run, lookup_insert_eq. cbn [fst snd].
  rewrite delete_insert_id by apply new_id_fresh. reflexivity.
Qed.

(** ** PATCH as an operation on the stored item *)

Ltac copy_fields :=
  unfold copy;
  cbn [Item.name Item.description Item.price Item.tax ItemUpdate.dict
       Update.name Update.description Update.price Update.tax];
  rewrite ?default_entry.

Lemma copy_nothing_set (stored : Item.t) (u : ItemUpdate.t) :
  ItemUpdate.fields_set u = ∅ →
  copy stored (ItemUpdate.dict true u) = stored.
Proof.
  intros He. destruct stored. copy_fields. rewrite He.
  by rewrite !bool_decide_eq_false_2 by apply not_elem_of_empty.
Qed.

Lemma copy_idempotent (stored : Item.t) (u : ItemUpdate.t) :
  copy (copy stored (ItemUpdate.dict true u)) (ItemUpdate.dict true u) =
    copy stored (ItemUpdate.dict true u).
Proof. copy_fields. f_equal; by case_bool_decide. Qed.

Lemma copy_commute (stored : Item.t) (u1 u2 : ItemUpdate.t) :
  ItemUpdate.fields_set u1 ## ItemUpdate.fields_set u2 →
  copy (copy stored (ItemUpdate.dict true u1)) (ItemUpdate.dict true u2) =
    copy (copy stored (ItemUpdate.dict true u2)) (ItemUpdate.dict true u1).
Proof.
  intros Hdisj. rewrite elem_of_disjoint in Hdisj. copy_fields.
  f_equal; repeat case_bool_decide; try done; exfalso; eauto.
Qed.

(** X5. A PATCH whose body supplies no field answers 200 with the
    stored item and leaves the dictionary as it was. *)
Theorem update_item_nothing_set (items : gmap Z Item.t) (item_id : Z)
    (stored : Item.t) (u : ItemUpdate.t) :
  items !! item_id = Some stored →
  ItemUpdate.fields_set u = ∅ →
  update_item item_id u items =
    ({| status_code := 200;
        content := Json (("item_id", VInt item_id) :: Item_dict stored) |},
     items).
Proof.
  intros Hs He. rewrite update_item_run, Hs. cbn zeta.
  rewrite copy_nothing_set by done. by rewrite insert_id.
Qed.

Lemma update_item_nothing_set_witness :
  update_item 1 nothing_set {[1 := Pen]} =
    ({| status_code := 200;
        content := Json (("item_id", VInt 1) :: Item_dict Pen) |},
     {[1 := Pen]}).
Proof.
  apply (update_item_nothing_set {[1 := Pen]} 1 Pen nothing_set).
  - apply lookup_singleton_eq.
  - reflexivity.
Defined.

(** X6. PATCH is idempotent: the same PATCH sent again gets the same
    answer and leaves the dictionary the first one left, whether the
    identifier is a key or not. *)
Theorem update_item_idempotent (items : gmap Z Item.t) (item_id : Z)
    (u : ItemUpdate.t) :
  update_item item_id u (update_item item_id u items).2 =
    update_item item_id u items.
Proof.
  rewrite (update_item_run item_id u items).
  destruct (items !! item_id) as [stored|] eqn:E; cbn [fst snd].
  - cbn zeta. cbn [snd]. rewrite update_item_run, lookup_insert_eq. cbn zeta.
    by rewrite copy_idempotent, insert_insert_eq.
  - by rewrite update_item_run, E.
Qed.

(** X7. Two PATCHes on the same identifier whose bodies supply no field
    in common leave the same dictionary in either order. *)
Theorem update_item_commute (items : gmap Z Item.t) (item_id : Z)
    (u1 u2 : ItemUpdate.t) :
  ItemUpdate.fields_set u1 ## ItemUpdate.fields_set u2 →
  (update_item item_id u2 (update_item item_id u1 items).2).2 =
    (update_item item_id u1 (update_item item_id u2 items).2).2.
Proof.
  intros Hdisj.
  rewrite (update_item_run item_id u1 items), (update_item_run item_id u2 items).
  destruct (items !! item_id) as [stored|] eqn:E; cbn zeta; cbn [snd].
  - rewrite !update_item_run, !lookup_insert_eq. cbn zeta. cbn [snd].
    by rewrite !insert_insert_eq, copy_commute.
  - by rewrite !update_item_run, E.
Qed.

Lemma update_item_commute_witness :
  (update_item 1 name_null (update_item 1 price_only {[1 := Pen]}).2).2 =
    (update_item 1 price_only (update_item 1 name_null {[1 := Pen]}).2).2.
Proof.
  apply (update_item_commute {[1 := Pen]} 1 price_only name_null).
  apply elem_of_disjoint. intros x Hx1 Hx2.
  cbn [ItemUpdate.fields_set price_only name_null] in Hx1, Hx2.
  apply elem_of_singleton in Hx1. apply elem_of_singleton in Hx2.
  rewrite Hx1 in Hx2. discriminate Hx2.
Defined.

(** ** What a request may change *)

Lemma login_store (username password : string) (items : gmap Z Item.t) :
  (login username password items).2 = items.
Proof. by rewrite login_run. Qed.

Lemma head_item_store (item_id : Z) (items : gmap Z Item.t) :
  (app (HEAD_item item_id) items).2 = items.
Proof.
  simpl app. unfold fmap, M_fmap. rewrite head_item_run.
  by destruct (items !! item_id).
Qed.

(** X8. A request changes the dictionary at one key at most: the
    identifier of the path for PUT, PATCH and DELETE, the identifier
    [create_item] computes for POST.  Every other key keeps its binding
    or stays unbound, and GET, HEAD, OPTIONS, the login form and the
    upload leave the whole dictionary as it was. *)
Theorem one_key_per_request (r : Request) (items : gmap Z Item.t) :
  (∀ k, target r items ≠ Some k → (app r items).2 !! k = items !! k) ∧
  (target r items = None → (app r items).2 = items).
Proof.
  destruct r as [id q|it|id it|id u|id|id| |us pw|file];
    cbn [target]; split; try discriminate; try done;
    try (intros; by rewrite head_item_store);
    try (intros; simpl app; by rewrite login_store);
    intros k Hk; assert (Hne : ∀ j, Some j ≠ Some k → j ≠ k) by congruence;
    apply Hne in Hk; simpl app.
  - rewrite create_item_run. by apply lookup_insert_ne.
  - rewrite replace_item_run. by apply lookup_insert_ne.
  - rewrite update_item_run. destruct (items !! id); [|done].
    by apply lookup_insert_ne.
  - rewrite delete_item_run. destruct (items !! id); [|done].
    by apply lookup_delete_ne.
Qed.

(** X9. The number of entries after a request: a POST adds one, a PUT
    adds one exactly when its identifier was not a key, a DELETE removes
    one exactly when its identifier was a key, and no other request,
    PATCH included, changes it. *)
Theorem store_size (r : Request) (items : gmap Z Item.t) :
  size (app r items).2 =
    match r with
    | POST_items _ => S (size items)
    | PUT_item item_id _ =>
        if bool_decide (is_Some (items !! item_id))
        then size items else S (size items)
    | DELETE_item item_id =>
        if bool_decide (is_Some (items !! item_id))
        then pred (size items) else size items
    | _ => size items
    end.
Proof.
  destruct r as [id q|it|id it|id u|id|id| |us pw|file]; try done.
  - simpl app. rewrite create_item_run. cbn [snd].
    apply map_size_insert_None, new_id_fresh.
  - simpl app. rewrite replace_item_run. cbn [snd].
    rewrite map_size_insert. by destruct (items !! id).
  - simpl app. rewrite update_item_run.
    destruct (items !! id) as [stored|] eqn:E; [|done].
    cbn zeta. cbn [snd]. apply map_size_insert_Some. by rewrite E.
  - simpl app. rewrite delete_item_run.
    destruct (items !! id) as [stored|] eqn:E; [|done].
    cbn [snd]. apply map_size_delete_Some. by rewrite E.
  - by rewrite head_item_store.
  - simpl app. by rewrite login_store.
Qed.

(** ** Invariants of a session *)

Lemma positive_keys_step (r : Request) (items : gmap Z Item.t) :
  positive_keys items → positive_put r → positive_keys (app r items).2.
Proof.
  intros Hpos Hr. destruct r as [id q|it|id it|id u|id|id| |us pw|file];
    try done.
  - simpl app. rewrite create_item_run.
    apply positive_keys_insert; [done|by apply new_id_positive].
  - simpl app. rewrite replace_item_run. by apply positive_keys_insert.
  - by apply positive_keys_update.
  - by apply positive_keys_delete.
  - by rewrite head_item_store.
  - simpl app. by rewrite login_store.
Qed.

(** X10. Over a whole session the keys stay strictly positive, when
    they were at its start, provided every PUT of the session names a
    strictly positive identifier; from the empty dictionary in
    particular. *)
Theorem serve_positive_keys (rs : list Request) (items : gmap Z Item.t) :
  positive_keys items →
  Forall positive_put rs →
  positive_keys (serve rs items).2.
Proof.
  revert items. induction rs as [|r rs IH]; intros items Hpos Hrs.
  - done.
  - apply Forall_cons in Hrs as [Hr Hrs].
    rewrite serve_cons. cbn [snd]. apply IH; [|done].
    by apply positive_keys_step.
Qed.

Lemma serve_positive_keys_witness :
  positive_keys
    (serve [POST_items Pen; PUT_item 4 Ink; DELETE_item 1; POST_items Pen]
       ∅).2.
Proof.
  apply (serve_positive_keys
           [POST_items Pen; PUT_item 4 Ink; DELETE_item 1; POST_items Pen] ∅).
  - apply map_Forall_empty.
  - repeat constructor.
Defined.

Lemma copy_valid (stored : Item.t) (u : ItemUpdate.t) :
  Item.valid stored → keeps_required u →
  Item.valid (copy stored (ItemUpdate.dict true u)).
Proof.
  intros [Hn Hp] [Hun Hup]. unfold Item.valid. copy_fields.
  split; case_bool_decide; auto.
Qed.

Lemma store_valid_step (r : Request) (items : gmap Z Item.t) :
  store_valid items → valid_request r → store_valid (app r items).2.
Proof.
  intros Hv Hr. destruct r as [id q|it|id it|id u|id|id| |us pw|file];
    try done.
  - simpl app. rewrite create_item_run. by apply map_Forall_insert_2.
  - simpl app. rewrite replace_item_run. by apply map_Forall_insert_2.
  - simpl app. rewrite update_item_run.
    destruct (items !! id) as [stored|] eqn:E; [|done].
    apply map_Forall_insert_2; [|done].
    apply copy_valid; [|done]. exact (map_Forall_lookup_1 _ _ _ _ Hv E).
  - simpl app. rewrite delete_item_run.
    destruct (items !! id); [|done]. by apply map_Forall_delete.
  - by rewrite head_item_store.
  - simpl app. by rewrite login_store.
Qed.

(** X11. Over a whole session every stored item keeps a [name] and a
    [price], when that held at its start, provided the bodies of POST
    and PUT meet the schema of [Item] and no PATCH supplies null for
    [name] or [price]. *)
Theorem serve_store_valid (rs : list Request) (items : gmap Z Item.t) :
  store_valid items →
  Forall valid_request rs →
  store_valid (serve rs items).2.
Proof.
  revert items. induction rs as [|r rs IH]; intros items Hv Hrs.
  - done.
  - apply Forall_cons in Hrs as [Hr Hrs].
    rewrite serve_cons. cbn [snd]. apply IH; [|done].
    by apply store_valid_step.
Qed.

Lemma serve_store_valid_witness :
  store_valid
    (serve [POST_items Pen; PATCH_item 1 price_only; PUT_item 2 Ink] ∅).2.
Proof.
  apply (serve_store_valid
           [POST_items Pen; PATCH_item 1 price_only; PUT_item 2 Ink] ∅).
  - apply map_Forall_empty.
  - repeat constructor; simpl; eauto.
    intros Hin. apply elem_of_singleton in Hin. discriminate Hin.
Defined.

(** ** Identifiers in a session without DELETE *)

Lemma keys_kept (r : Request) (items : gmap Z Item.t) (k : Z) :
  is_DELETE_item r = false →
  is_Some (items !! k) → is_Some ((app r items).2 !! k).
Proof.
  intros Hr Hk. destruct r as [id q|it|id it|id u|id|id| |us pw|file];
    try done.
  - simpl app. rewrite create_item_run. cbn [snd].
    rewrite lookup_insert_is_Some'. by right.
  - simpl app. rewrite replace_item_run. cbn [snd].
    rewrite lookup_insert_is_Some'.
    destruct (decide (id = k)); [by left|by right].
  - simpl app. rewrite update_item_run. destruct (items !! id); [|done].
    cbn zeta. cbn [snd]. rewrite lookup_insert_is_Some'.
    destruct (decide (id = k)); [by left|by right].
  - by rewrite head_item_store.
  - simpl app. by rewrite login_store.
Qed.

Lemma StronglySorted_lt_NoDup (l : list Z) : StronglySorted Z.lt l → NoDup l.
Proof.
  induction 1 as [|x l Hs IH Hx]; constructor; [|done].
  intros Hin. rewrite Forall_forall in Hx. specialize (Hx _ Hin). lia.
Qed.

(** X12. In a session without DELETE the identifiers answered to the
    POST requests are strictly increasing, hence pairwise distinct, and
    each is larger than every key the session found in the dictionary,
    whatever GET, PUT, PATCH, HEAD and the other requests come in
    between. *)
Theorem created_ids_increasing (rs : list Request) (items : gmap Z Item.t) :
  Forall (λ r, is_DELETE_item r = false) rs →
  ∃ ids : list Z,
    created_ids rs (serve rs items).1 = Some <$> ids ∧
    Forall (λ id, ∀ k, is_Some (items !! k) → k < id) ids ∧
    StronglySorted Z.lt ids ∧
    NoDup ids.
Proof.
  intros Hrs.
  cut (∃ ids : list Z,
         created_ids rs (serve rs items).1 = Some <$> ids ∧
         Forall (λ id, ∀ k, is_Some (items !! k) → k < id) ids ∧
         StronglySorted Z.lt ids).
  { intros (ids & H1 & H2 & H3). exists ids.
    repeat split; try done. by apply StronglySorted_lt_NoDup. }
  revert items. induction rs as [|r rs IH]; intros items.
  - exists []. repeat split; constructor.
  - apply Forall_cons in Hrs as [Hr Hrs].
    destruct (IH Hrs (app r items).2) as (ids & Hids & Habove & Hsorted).
    assert (Habove' : Forall (λ id, ∀ k, is_Some (items !! k) → k < id) ids).
    { eapply Forall_impl; [exact Habove|]. intros id Hid k Hk.
      by apply Hid, keys_kept. }
    rewrite serve_cons. cbn [fst created_ids]. rewrite Hids.
    destruct r as [id q|it|id it|id u|id|id| |us pw|file];
      cbn [is_POST_items]; try (exists ids; by repeat split).
    exists (new_id items :: ids). simpl app. rewrite create_item_run.
    cbn [fst]. split; [reflexivity|]. split.
    + constructor; [apply new_id_above|done].
    + constructor; [done|].
      eapply Forall_impl; [exact Habove|]. intros id Hid. apply Hid.
      simpl app. rewrite create_item_run. cbn [snd].
      rewrite lookup_insert_eq. eauto.
Qed.

Lemma created_ids_increasing_witness :
  ∃ ids : list Z,
    created_ids [POST_items Pen; PUT_item 7 Ink; POST_items Pen]
      (serve [POST_items Pen; PUT_item 7 Ink; POST_items Pen] ∅).1
      = Some <$> ids ∧
    Forall (λ id, ∀ k, is_Some ((∅ : gmap Z Item.t) !! k) → k < id) ids ∧
    StronglySorted Z.lt ids ∧
    NoDup ids.
Proof.
  apply (created_ids_increasing
           [POST_items Pen; PUT_item 7 Ink; POST_items Pen] ∅).
  repeat constructor.
Defined.

(** The identifiers of that session: 1, then 8 once the PUT has bound
    7. *)
Example created_ids_after_put :
  created_ids [POST_items Pen; PUT_item 7 Ink; POST_items Pen]
    (serve [POST_items Pen; PUT_item 7 Ink; POST_items Pen] ∅).1
  = [Some 1; Some 8].
Proof. vm_compute. reflexivity. Qed.

(** ** PUT and PATCH as writes *)

(** X13. A PATCH whose body supplies all four fields stores, on a key
    of the dictionary, exactly the item of its body, whatever was
    stored: it leaves the dictionary the PUT of that item would leave. *)
Theorem update_item_all_fields (items : gmap Z Item.t) (item_id : Z)
    (stored : Item.t) (u : ItemUpdate.t) :
  items !! item_id = Some stored →
  (∀ f, key f ∈ ItemUpdate.fields_set u) →
  let item := {| Item.name := ItemUpdate.name u;
                 Item.description := ItemUpdate.description u;
                 Item.price := ItemUpdate.price u;
                 Item.tax := ItemUpdate.tax u |} in
  update_item item_id u items = replace_item item_id item items.
Proof.
  intros Hs Hall item. rewrite update_item_run, Hs, replace_item_run.
  cbn zeta.
  assert (Hc : copy stored (ItemUpdate.dict true u) = item).
  { subst item. copy_fields.
    pose proof (Hall Fname). pose proof (Hall Fdescription).
    pose proof (Hall Fprice). pose proof (Hall Ftax).
    cbn [key] in *. by rewrite !bool_decide_eq_true_2. }
  by rewrite Hc.
Qed.

Lemma update_item_all_fields_witness :
  update_item 1
    {| ItemUpdate.name := Some "Ink"; ItemUpdate.description := Some "blue";
       ItemUpdate.price := Some 3%float; ItemUpdate.tax := Some 0.5%float;
       ItemUpdate.fields_set := {["name"; "description"; "price"; "tax"]} |}
    {[1 := Pen]}
  = replace_item 1 Ink {[1 := Pen]}.
Proof.
  apply (update_item_all_fields {[1 := Pen]} 1 Pen
    {| ItemUpdate.name := Some "Ink"; ItemUpdate.description := Some "blue";
       ItemUpdate.price := Some 3%float; ItemUpdate.tax := Some 0.5%float;
       ItemUpdate.fields_set := {["name"; "description"; "price"; "tax"]} |}).
  - apply lookup_singleton_eq.
  - intros f. cbn [ItemUpdate.fields_set].
    rewrite !elem_of_union, !elem_of_singleton. destruct f; simpl; tauto.
Defined.

(** X14. Of two PUTs on the same identifier the later one decides what
    is stored, and two PUTs on different identifiers leave the same
    dictionary in either order. *)
Theorem replace_item_last_wins (items : gmap Z Item.t) (id1 id2 : Z)
    (item1 item2 : Item.t) :
  (replace_item id1 item2 (replace_item id1 item1 items).2).2 =
    (replace_item id1 item2 items).2 ∧
  (id1 ≠ id2 →
   (replace_item id2 item2 (replace_item id1 item1 items).2).2 =
     (replace_item id1 item1 (replace_item id2 item2 items).2).2).
Proof.
  rewrite !replace_item_run. cbn [snd]. split.
  - apply insert_insert_eq.
  - intros Hne. by apply insert_insert_ne.
Qed.

(** ** Consecutive POSTs *)

Lemma new_id_insert (items : gmap Z Item.t) (item : Item.t) :
  new_id (<[new_id items := item]> items) = new_id items + 1.
Proof.
  assert (Hlt : new_id items < new_id (<[new_id items := item]> items)).
  { apply new_id_above. rewrite lookup_insert_eq. eauto. }
  assert (Hne : <[new_id items := item]> items ≠ ∅) by apply insert_non_empty.
  destruct (new_id_pred _ Hne) as [i Hi].
  apply lookup_insert_Some in Hi as [[Heq _]|[_ Hi]]; [lia|].
  assert (new_id (<[new_id items := item]> items) - 1 < new_id items); [|lia].
  apply new_id_above. eauto.
Qed.

(** X15. Consecutive POSTs answer consecutive identifiers: [n] items
    posted one after the other get the identifiers [m], [m + 1], ...,
    [m + n - 1], where [m] is the first one; from the empty dictionary
    these are 1, 2, ..., [n]. *)
Theorem serve_create_consecutive (its : list Item.t)
    (items : gmap Z Item.t) :
  item_id_of <$> (serve (POST_items <$> its) items).1 =
    Some <$> seqZ (new_id items) (Z.of_nat (length its)) ∧
  item_id_of <$> (serve (POST_items <$> its) ∅).1 =
    Some <$> seqZ 1 (Z.of_nat (length its)).
Proof.
  cut (∀ items0 : gmap Z Item.t,
         item_id_of <$> (serve (POST_items <$> its) items0).1 =
           Some <$> seqZ (new_id items0) (Z.of_nat (length its))).
  { intros H. split; [apply H|]. rewrite <- new_id_empty. apply H. }
  induction its as [|it its IH]; intros items0; [done|].
  rewrite fmap_cons, serve_cons. simpl app. rewrite create_item_run.
  cbn [fst snd]. rewrite fmap_cons, IH, new_id_insert.
  cbn [length]. rewrite (seqZ_cons (new_id items0)) by lia.
  rewrite fmap_cons. repeat f_equal; lia.
Qed.

(** ** Routes that do not use the dictionary *)

